(** * rnbo-motor-control.py: discovery of the RNBO output path and resilient
    actuation of the motor and its LEDs.

    Shallow embedding of [src/rnbo-motor-control.py].

    - A parsed JSON document (the result of [response.json()]) is [json].
      A finite int or float is [JNum] with its exact value (the rounding of
      floats is not modelled); the [json] module reads [Infinity], [NaN] and
      float literals beyond the float range as the floats [inf] and [nan]
      ([JInf], [JNaN]).  An object is the parsed Python dict, i.e. its
      entries in insertion order with distinct keys, so [dict.get] is the
      first entry with that key.  Strings are ASCII.
    - Python exceptions are the [Raise] case of [res].
    - The GPIO devices are modelled by the list of writes the program makes
      ([event]); the ratio a channel shows is the last write to it, and a
      freshly created device is at 0 ([initial_value=0] of gpiozero).
      gpiozero reserves the pin of every device it creates and refuses a
      second device on a reserved pin with [GPIOPinInUse] ([reserve_pins]).
    - The clock, the network and the keyboard are an environment script:
      the results of the successive fetches, where an interrupt arrives,
      and when the discovery deadline has passed. *)

From Stdlib Require Import String Ascii List Bool Arith QArith Lia Lqa.
Import ListNotations.
Open Scope nat_scope.
Open Scope string_scope.
Open Scope list_scope.
Set Warnings "-register-all".

(** ** JSON values and Python truthiness *)

Inductive json : Type :=
| JNull
| JBool (b : bool)
| JNum (q : Q)
| JInf (neg : bool)
| JNaN
| JStr (s : string)
| JList (l : list json)
| JObj (kvs : list (string * json)).

(** [bool(x)] in Python. *)
Definition truthy (v : json) : bool :=
  match v with
  | JNull => false
  | JBool b => b
  | JNum q => negb (Qeq_bool q 0)
  | JInf _ | JNaN => true
  | JStr s => negb (String.eqb s "")
  | JList l => match l with [] => false | _ => true end
  | JObj kvs => match kvs with [] => false | _ => true end
  end.

(** [d.get(k)]: [None] (= JSON null) when the key is missing. *)
Fixpoint dict_get (kvs : list (string * json)) (k : string) : json :=
  match kvs with
  | [] => JNull
  | (k', v) :: rest => if String.eqb k' k then v else dict_get rest k
  end.

(** Python exceptions that the program raises or receives. *)
Inductive exn : Type :=
| AttributeError     (* [.values()] on a CONTENTS that is not a dict *)
| KeyboardInterrupt  (* Ctrl-C *)
| OverflowError      (* [float()] of an int too large for a float *)
| GPIOPinInUse       (* a gpiozero device on a pin already in use *)
| OtherError.        (* any other unhandled failure *)

Inductive res (A : Type) : Type :=
| Ret (a : A)
| Raise (e : exn).
Arguments Ret {A} a.
Arguments Raise {A} e.

(** ** [search_tree_for_value] *)

(** [tree.get("FULL_PATH") == target_path]: only a string can be equal. *)
Definition path_matches (kvs : list (string * json)) (target : string) : bool :=
  match dict_get kvs "FULL_PATH" with
  | JStr s => String.eqb s target
  | _ => false
  end.

(** Lines 54-55:
    [val = tree.get("value") or tree.get("VALUE")]
    [return val[0] if isinstance(val, list) and len(val) > 0 else val] *)
Definition node_value (kvs : list (string * json)) : json :=
  let v1 := dict_get kvs "value" in
  let val := if truthy v1 then v1 else dict_get kvs "VALUE" in
  match val with
  | JList (x :: _) => x
  | _ => val
  end.

(** Lines 48-62.  [children = tree.get("CONTENTS") or {}] followed by
    [children.values()]: a truthy CONTENTS that is not a dict has no
    [.values] and raises [AttributeError].  The lookup of CONTENTS is
    written as a scan of the node's entries ([contents]) so that the
    recursion is structural; [search_obj_contents] below shows it is
    [dict_get kvs "CONTENTS"]. *)
Fixpoint search_tree_for_value (tree : json) (target : string) {struct tree}
  : res json :=
  match tree with
  | JObj kvs =>
      if path_matches kvs target then Ret (node_value kvs)
      else
        let fix children (cs : list (string * json)) : res json :=
          match cs with
          | [] => Ret JNull
          | (_, child) :: cs' =>
              match search_tree_for_value child target with
              | Ret JNull => children cs'
              | r => r
              end
          end in
        let fix contents (l : list (string * json)) : res json :=
          match l with
          | [] => children []
          | (k, v) :: l' =>
              if String.eqb k "CONTENTS" then
                if truthy v then
                  match v with
                  | JObj cs => children cs
                  | _ => Raise AttributeError
                  end
                else children []
              else contents l'
          end in
        contents kvs
  | _ => Ret JNull
  end.

(** ** [float(val)] *)

(** A Python float: finite (its exact value), an infinity, or nan. *)
Inductive pyfloat : Type :=
| Fin (q : Q)
| Inf (neg : bool)
| NaN.

(** The magnitude from which rounding to a double overflows: halfway
    between the largest double, 2^1024 - 2^971, and 2^1024 (a tie rounds to
    2^1024). *)
Definition float_bound : Q := inject_Z (2 ^ 1024 - 2 ^ 970)%Z.

Definition overflows (q : Q) : bool :=
  Qle_bool float_bound q || Qle_bool q (- float_bound)%Q.

(** Python's [float] on a string (CPython's [PyFloat_FromString]): the
    underscores are checked and dropped, surrounding ASCII whitespace is
    stripped, and the rest must be a decimal literal
    [[sign] digits [. digits] [e [sign] digits]] with at least one mantissa
    digit, or [[sign] inf], [[sign] infinity], [[sign] nan] in any case.  A
    decimal literal beyond the float range gives an infinity. *)
Definition is_space (c : ascii) : bool :=
  match nat_of_ascii c with
  | 32 | 9 | 10 | 11 | 12 | 13 => true
  | _ => false
  end.

Fixpoint drop_spaces (l : list ascii) : list ascii :=
  match l with
  | c :: l' => if is_space c then drop_spaces l' else l
  | [] => []
  end.

Definition strip (l : list ascii) : list ascii :=
  rev (drop_spaces (rev (drop_spaces l))).

Definition digit_val (c : ascii) : option Z :=
  let n := nat_of_ascii c in
  if Nat.leb 48 n && Nat.leb n 57 then Some (Z.of_nat (n - 48)) else None.

Definition is_digit (c : ascii) : bool :=
  match digit_val c with Some _ => true | None => false end.

(** [_Py_string_to_number_with_underscores]: an underscore must come after
    a digit and before a digit; the underscores are then dropped.  [prev]
    is the previous character, NUL at the start. *)
Fixpoint drop_underscores (prev : ascii) (l : list ascii) : option (list ascii) :=
  match l with
  | [] => if (prev =? "_")%char then None else Some []
  | c :: l' =>
      if (c =? "_")%char then
        if is_digit prev then drop_underscores c l' else None
      else if (prev =? "_")%char && negb (is_digit c) then None
      else option_map (cons c) (drop_underscores c l')
  end.

(** Reads a maximal run of digits: its value, its length, what follows. *)
Fixpoint read_digits (l : list ascii) (acc : Z) (len : nat)
  : Z * nat * list ascii :=
  match l with
  | c :: l' =>
      match digit_val c with
      | Some d => read_digits l' (10 * acc + d) (S len)
      | None => (acc, len, l)
      end
  | [] => (acc, len, [])
  end.

Definition read_sign (l : list ascii) : Z * list ascii :=
  match l with
  | "-"%char :: l' => (-1, l')%Z
  | "+"%char :: l' => (1, l')%Z
  | _ => (1, l)%Z
  end.

Definition pow10 (n : nat) : Z := Z.pow 10 (Z.of_nat n).

(** The decimal literal that makes up the whole of [l], if it is one. *)
Definition parse_float_chars (l : list ascii) : option Q :=
  let '(sgn, l1) := read_sign l in
  let '(ip, ilen, l2) := read_digits l1 0 0 in
  let '(fp, flen, l3) :=
    match l2 with
    | "."%char :: l2' => read_digits l2' 0 0
    | _ => (0%Z, 0, l2)
    end in
  if Nat.eqb (ilen + flen) 0 then None
  else
    let mant := (sgn * (ip * pow10 flen + fp) # Z.to_pos (pow10 flen))%Q in
    match l3 with
    | [] => Some mant
    | c :: l4 =>
        if (c =? "e")%char || (c =? "E")%char then
          let '(esgn, l5) := read_sign l4 in
          let '(e, elen, l6) := read_digits l5 0 0 in
          match elen, l6 with
          | S _, [] =>
              if (0 <=? esgn)%Z then Some (mant * inject_Z (10 ^ e)%Z)%Q
              else Some (mant / inject_Z (10 ^ e)%Z)%Q
          | _, _ => None
          end
        else None
    end.

Definition lower (c : ascii) : ascii :=
  let n := nat_of_ascii c in
  if Nat.leb 65 n && Nat.leb n 90 then ascii_of_nat (n + 32) else c.

(** [l] starts with the lower-case word [w], ignoring case: what follows. *)
Fixpoint match_word (w : list ascii) (l : list ascii) : option (list ascii) :=
  match w, l with
  | [], _ => Some l
  | c :: w', d :: l' => if (lower d =? c)%char then match_word w' l' else None
  | _ :: _, [] => None
  end.

(** [_Py_parse_inf_or_nan]: the float and what follows it. *)
Definition parse_inf_nan (l : list ascii) : option (pyfloat * list ascii) :=
  let '(sgn, l1) := read_sign l in
  match match_word (list_ascii_of_string "inf") l1 with
  | Some l2 =>
      let l3 := match match_word (list_ascii_of_string "inity") l2 with
                | Some l4 => l4
                | None => l2
                end in
      Some (Inf (Z.ltb sgn 0), l3)
  | None =>
      match match_word (list_ascii_of_string "nan") l1 with
      | Some l2 => Some (NaN, l2)
      | None => None
      end
  end.

(** [float(s)] on a string; [None] is the [ValueError]. *)
Definition float_of_string (s : string) : option pyfloat :=
  match drop_underscores (ascii_of_nat 0) (list_ascii_of_string s) with
  | None => None
  | Some l =>
      let l' := strip l in
      match parse_float_chars l' with
      | Some q => Some (if overflows q then Inf (Qle_bool q 0) else Fin q)
      | None =>
          match parse_inf_nan l' with
          | Some (f, []) => Some f
          | _ => None
          end
      end
  end.

(** [float(val)] on a value: [Ret None] is the [ValueError] (unreadable
    string) or [TypeError] (None, list, dict) that [main] catches at line
    132; an int too large for a float raises [OverflowError], which it does
    not catch.  A [JNum] at or beyond [float_bound] can only be an int,
    since the [json] module reads such a float literal as [inf].
    [float(True) = 1.0]. *)
Definition py_float (v : json) : res (option pyfloat) :=
  match v with
  | JNum q => if overflows q then Raise OverflowError else Ret (Some (Fin q))
  | JInf neg => Ret (Some (Inf neg))
  | JNaN => Ret (Some NaN)
  | JBool b => Ret (Some (Fin (if b then 1 else 0)%Q))
  | JStr s => Ret (float_of_string s)
  | JNull | JList _ | JObj _ => Ret None
  end.

(** The finite value of [float(v)]: [None] when [float] raises or gives an
    infinity or nan. *)
Definition to_float (v : json) : option Q :=
  match py_float v with
  | Ret (Some (Fin q)) => Some q
  | _ => None
  end.

(** ** GPIO devices and the log *)

Definition MOTOR_PIN : nat := 5.
Definition LED_PINS : list nat := [26; 19; 13].

Inductive level : Type := Info | Warning | Error.

(** The log lines of the program (line numbers in the source). *)
Inductive msg : Type :=
| MHostUnresolved             (* 33 *)
| MFetchStatus (status : Z)   (* 43 *)
| MFetchException             (* 45 *)
| MFoundPath (path : string)  (* 93 *)
| MTimeout                    (* 100 *)
| MNoPath                     (* 115 *)
| MPolling (path : string)    (* 118 *)
| MSet (duty : Q)             (* 131 *)
| MInvalid (v : json)         (* 133 *)
| MFailedGet                  (* 135 *)
| MInterrupted                (* 140 *)
| MShutdown.                  (* 146 *)

(** What the program does to the outside world: [dev.value = r] on the
    device of a pin, [dev.off()], or a log line. *)
Inductive event : Type :=
| SetValue (pin : nat) (r : Q)
| Off (pin : nat)
| Log (lvl : level) (m : msg).

(** The ratio a pin shows after a sequence of events, starting from a
    freshly created device (ratio 0). *)
Fixpoint ratio_after (pin : nat) (r0 : Q) (tr : list event) : Q :=
  match tr with
  | [] => r0
  | SetValue p r :: tr' => ratio_after pin (if Nat.eqb p pin then r else r0) tr'
  | Off p :: tr' => ratio_after pin (if Nat.eqb p pin then 0 else r0) tr'
  | Log _ _ :: tr' => ratio_after pin r0 tr'
  end.

Definition ratio (pin : nat) (tr : list event) : Q := ratio_after pin 0 tr.

Definition all_channels : list nat := MOTOR_PIN :: LED_PINS.

(** [for led in leds: led.off()] *)
Definition leds_off : list event := map Off LED_PINS.

(** Creating one device per pin in [pins] while the pins [held] are in
    use: the pins then in use, or [GPIOPinInUse] at the first pin already
    in use. *)
Fixpoint reserve_pins (held : list nat) (pins : list nat) : res (list nat) :=
  match pins with
  | [] => Ret held
  | p :: pins' =>
      if existsb (Nat.eqb p) held then Raise GPIOPinInUse
      else reserve_pins (p :: held) pins'
  end.

(** ** [resolve_hostname] (lines 27-34) and [fetch_full_tree] (lines 36-46) *)

(** What [socket.gethostbyname(HOSTNAME)] does: it answers an address,
    raises [socket.gaierror], or is interrupted. *)
Inductive lookup_result : Type :=
| Resolved (ip : string)
| Gaierror
| LookupInterrupt.

(** [resolve_hostname()]: [f"http://{ip}:{PORT}"] with [PORT = 5678], or
    [None] after a gaierror (its error log is the [MHostUnresolved] line
    that [main] emits in that case). *)
Definition resolve_hostname (l : lookup_result) : res (option string) :=
  match l with
  | Resolved ip => Ret (Some (String.append "http://" (String.append ip ":5678")))
  | Gaierror => Ret None
  | LookupInterrupt => Raise KeyboardInterrupt
  end.

(** What [requests.get(url, timeout=2)] does: a response with a status code
    and a body that [response.json()] parses ([Some]) or rejects ([None]);
    an exception (connection refused, timeout, ...); or an interrupt, which
    is not an [Exception] and is not caught. *)
Inductive http_result : Type :=
| HResponse (status : Z) (body : option json)
| HException
| HInterrupt.

(** [fetch_full_tree(url)]: the value it returns ([JNull] is [None]) and
    the warnings it logs. *)
Definition fetch_full_tree (h : http_result) : res json * list event :=
  match h with
  | HResponse status body =>
      if Z.eqb status 200 then
        match body with
        | Some tree => (Ret tree, [])
        | None => (Ret JNull, [Log Warning MFetchException]) (* [response.json()] raised *)
        end
      else (Ret JNull, [Log Warning (MFetchStatus status)])
  | HException => (Ret JNull, [Log Warning MFetchException])
  | HInterrupt => (Raise KeyboardInterrupt, [])
  end.

(** ** One steady-state cycle (lines 122-135) *)

(** Line 67, [search_tree_for_value(tree, path) if tree else None], on the
    value [fetch_full_tree] returned: [Some tree], with [JNull] for its
    [None]; [None] stands for [None] as well. *)
Definition get_parameter_value (fetched : option json) (path : string)
  : res json :=
  match fetched with
  | Some tree => if truthy tree then search_tree_for_value tree path else Ret JNull
  | None => Ret JNull
  end.

(** [get_parameter_value(url, path)] (lines 64-67) from the HTTP result. *)
Definition get_parameter_value_http (h : http_result) (path : string) : res json :=
  match fst (fetch_full_tree h) with
  | Raise e => Raise e
  | Ret tree => get_parameter_value (Some tree) path
  end.

(** [max(0, min(100, x))] for a finite [x]: [min] keeps 100 unless
    [x < 100], [max] keeps 0 unless the other argument is [> 0]. *)
Definition clamp (x : Q) : Q :=
  let y := if Qlt_le_dec x 100 then x else 100%Q in
  if Qlt_le_dec 0 y then y else 0%Q.

(** [max(0, min(100, f))] for any float: comparisons with nan are false,
    so [min] keeps 100 for nan. *)
Definition duty_of (f : pyfloat) : Q :=
  match f with
  | Fin x => clamp x
  | Inf false => 100%Q   (* min(100, inf) = 100 *)
  | Inf true => 0%Q      (* min(100, -inf) = -inf, max(0, -inf) = 0 *)
  | NaN => 100%Q         (* min(100, nan) = 100 *)
  end.

(** Lines 127-130: [pwm = duty / 100.0], then the motor and every LED. *)
Definition set_all (pwm : Q) : list event :=
  SetValue MOTOR_PIN pwm :: map (fun pin => SetValue pin pwm) LED_PINS.

(** Lines 126-131 for a value that [float] accepts, with finite value [x]. *)
Definition actuate (x : Q) : list event :=
  let duty := clamp x in
  set_all (duty / 100)%Q ++ [Log Info (MSet duty)].

(** Lines 126-131 for any float [f]. *)
Definition actuate_float (f : pyfloat) : list event :=
  let duty := duty_of f in
  set_all (duty / 100)%Q ++ [Log Info (MSet duty)].

(** Lines 124-135 once the fetch has answered: the events of the cycle, or
    the exception it raises. *)
Definition poll_cycle (fetched : option json) (path : string)
  : res (list event) :=
  match get_parameter_value fetched path with
  | Raise e => Raise e
  | Ret JNull => Ret [Log Warning MFailedGet]
  | Ret v =>
      match py_float v with
      | Raise e => Raise e
      | Ret (Some f) => Ret (actuate_float f)
      | Ret None => Ret [Log Warning (MInvalid v)]
      end
  end.

(** Lines 122-135 with the fetch: the events of the cycle (the warning of
    a failed fetch first) and whether it raised. *)
Definition poll_cycle_http (h : http_result) (path : string) : res unit * list event :=
  let '(r, warns) := fetch_full_tree h in
  match r with
  | Raise e => (Raise e, warns)
  | Ret tree =>
      match poll_cycle (Some tree) path with
      | Raise e => (Raise e, warns)
      | Ret tr => (Ret tt, warns ++ tr)
      end
  end.

(** ** [get_dynamic_output_path] (lines 69-101) *)

(** [TARGET_PATH_BASE.format(i)] for a one-digit [i]. *)
Definition TARGET_PATH (i : nat) : string :=
  String.append "/rnbo/inst/"
    (String (ascii_of_nat (48 + i)) "/messages/out/output1").

(** [for i in range(2)] *)
Definition candidate_paths : list string := map TARGET_PATH [0; 1].

(** Lines 87-94 without the LED writes: the first candidate whose value is
    not [None]. *)
Fixpoint probe (tree : json) (cands : list string) : res (option string) :=
  match cands with
  | [] => Ret None
  | path :: cands' =>
      match search_tree_for_value tree path with
      | Raise e => Raise e
      | Ret JNull => probe tree cands'
      | Ret _ => Ret (Some path)
      end
  end.

(** One iteration of the [while] loop that the deadline lets start: the
    LEDs are written, then either an interrupt arrives during
    [time.sleep(0.5)] or [fetch_full_tree] answers with [fetched] ([None]
    for a failed fetch, whose warning is not part of the discovery trace). *)
Inductive dstep : Type :=
| DAttempt (fetched : option json)
| DInterrupt.

(** The [try] body of lines 77-94.  The script ends when
    [time.time() - start < timeout] fails. *)
Fixpoint discovery_loop (blink : bool) (env : list dstep)
  : res (option string) * list event :=
  match env with
  | [] => (Ret None, [])
  | step :: env' =>
      let w := map (fun pin => SetValue pin (if blink then 1 else 0)%Q) LED_PINS in
      let continue_ :=
        let '(r, tr) := discovery_loop (negb blink) env' in (r, w ++ tr) in
      match step with
      | DInterrupt => (Raise KeyboardInterrupt, w)
      | DAttempt None => continue_
      | DAttempt (Some tree) =>
          if negb (truthy tree) then continue_
          else
            match probe tree candidate_paths with
            | Raise e => (Raise e, w)
            | Ret (Some path) =>
                (Ret (Some path), w ++ leds_off ++ [Log Info (MFoundPath path)])
            | Ret None => continue_
            end
      end
  end.

(** [get_dynamic_output_path(url)] once its LEDs of line 74 exist: the loop,
    the [finally] of lines 96-98 and the timeout log of line 100. *)
Definition get_dynamic_output_path (env : list dstep)
  : res (option string) * list event :=
  let '(r, tr) := discovery_loop true env in
  (r, tr ++ leds_off ++
        match r with Ret None => [Log Error MTimeout] | _ => [] end).

(** [get_dynamic_output_path(url)] called while the pins [held] are in use:
    line 74 creates a [PWMLED] on each LED pin, before the [try]. *)
Definition get_dynamic_output_path_held (held : list nat) (env : list dstep)
  : res (option string) * list event :=
  match reserve_pins held LED_PINS with
  | Raise e => (Raise e, [])
  | Ret _ => get_dynamic_output_path env
  end.

(** ** [main] (lines 105-146) *)

(** What happens after a cycle, during [time.sleep(1)]: the next cycle
    runs with this HTTP result, or an exception arrives. *)
Inductive lstep : Type :=
| LCycle (h : http_result)  (* the next cycle's fetch gives [h] *)
| LInterrupt                (* KeyboardInterrupt *)
| LCrash.                   (* any other unhandled exception *)

Inductive outcome : Type :=
| Returned          (* [main] returns: exit status 0 *)
| Raised (e : exn)  (* an exception leaves [main]: non-zero exit status *)
| Running.          (* still polling at the end of the script *)


(** The [finally] of lines 142-146. *)
Definition cleanup : list event :=
  Off MOTOR_PIN :: leds_off ++ [Log Info MShutdown].

(** The [except KeyboardInterrupt] (lines 139-140) and the [finally] for an
    exception raised in the loop after the events [pre]. *)
Definition loop_exit (e : exn) (pre : list event) : outcome * list event :=
  match e with
  | KeyboardInterrupt => (Returned, pre ++ Log Info MInterrupted :: cleanup)
  | _ => (Raised e, pre ++ cleanup)
  end.

(** Lines 120-146. *)
Fixpoint poll_loop (path : string) (env : list lstep) : outcome * list event :=
  match env with
  | [] => (Running, [])
  | LInterrupt :: _ => loop_exit KeyboardInterrupt []
  | LCrash :: _ => loop_exit OtherError []
  | LCycle h :: env' =>
      let '(r, tr) := poll_cycle_http h path in
      match r with
      | Raise e => loop_exit e tr
      | Ret _ => let '(o, tr') := poll_loop path env' in (o, tr ++ tr')
      end
  end.

(** Lines 118-146: the steady state, once discovery has returned [path]. *)
Definition polling_phase (path : string) (env : list lstep) : outcome * list event :=
  let '(o, tr) := poll_loop path env in (o, Log Info (MPolling path) :: tr).

(** Lines 113-146 on what [get_dynamic_output_path] did: an exception
    leaves [main] (line 113 is outside the [try]). *)
Definition after_discovery (disc : res (option string) * list event)
  (lenv : list lstep) : outcome * list event :=
  let '(r, dtr) := disc in
  match r with
  | Raise e => (Raised e, dtr)
  | Ret None => (Returned, dtr ++ [Log Error MNoPath])
  | Ret (Some path) => let '(o, ptr) := polling_phase path lenv in (o, dtr ++ ptr)
  end.

(** [main]: the motor and the LEDs of lines 106-107 are created at ratio 0
    in a process where no pin is in use yet; [resolved] is the result of
    [resolve_hostname()]; discovery runs while they hold their pins. *)
Definition main (resolved : res (option string)) (denv : list dstep)
  (lenv : list lstep) : outcome * list event :=
  match reserve_pins [] (MOTOR_PIN :: LED_PINS) with
  | Raise e => (Raised e, [])
  | Ret held =>
      match resolved with
      | Raise e => (Raised e, [])
      | Ret None => (Returned, [Log Error MHostUnresolved])
      | Ret (Some _) => after_discovery (get_dynamic_output_path_held held denv) lenv
      end
  end.

(** ** Tree snapshots (section 3 of the spec)

    A [TreeNode] as the OSCQuery server sends it: its [FULL_PATH], the
    object of its children under [CONTENTS] (in insertion order), and its
    other fields ([value] or [VALUE], [TYPE], ...). *)
Inductive tnode : Type :=
| TNode (path : string) (fields : list (string * json))
        (children : list (string * tnode)).

Definition tn_path (n : tnode) : string := let '(TNode p _ _) := n in p.
Definition tn_fields (n : tnode) : list (string * json) :=
  let '(TNode _ fs _) := n in fs.

(** The JSON object of a node. *)
Fixpoint to_json (t : tnode) : json :=
  match t with
  | TNode p fs cs =>
      JObj (("FULL_PATH", JStr p)
            :: ("CONTENTS",
                JObj ((fix enc (l : list (string * tnode)) :=
                         match l with
                         | [] => []
                         | (k, c) :: l' => (k, to_json c) :: enc l'
                         end) cs))
            :: fs)
  end.

(** The nodes of a snapshot in pre-order: a node, then the nodes of each
    child in insertion order. *)
Fixpoint preorder (t : tnode) : list tnode :=
  match t with
  | TNode _ _ cs =>
      t :: (fix go (l : list (string * tnode)) :=
              match l with
              | [] => []
              | (_, c) :: l' => preorder c ++ go l'
              end) cs
  end.

(** The value the code reads at a node (lines 54-55). *)
Definition tn_value (n : tnode) : json := node_value (tn_fields n).

(** The locate contract of section 4.2 for an exact-path matcher: the value
    of the first node of the pre-order traversal whose path matches. *)
Definition locate_spec (t : tnode) (target : string) : json :=
  match find (fun n => String.eqb (tn_path n) target) (preorder t) with
  | Some n => tn_value n
  | None => JNull
  end.

(** The loop over [children.values()] of lines 58-61, as a function. *)
Definition search_children (target : string) :=
  fix children (cs : list (string * json)) : res json :=
    match cs with
    | [] => Ret JNull
    | (_, child) :: cs' =>
        match search_tree_for_value child target with
        | Ret JNull => children cs'
        | r => r
        end
    end.

Fixpoint encode_children (l : list (string * tnode)) : list (string * json) :=
  match l with
  | [] => []
  | (k, c) :: l' => (k, to_json c) :: encode_children l'
  end.

Fixpoint preorder_children (l : list (string * tnode)) : list tnode :=
  match l with
  | [] => []
  | (_, c) :: l' => preorder c ++ preorder_children l'
  end.

(** How many nodes of a list have the path [target]. *)
Definition count_match (target : string) (l : list tnode) : nat :=
  length (filter (fun n => String.eqb (tn_path n) target) l).

(** A candidate path is present in a snapshot when [search_tree_for_value]
    finds a value that is not [None] there (line 90). *)
Definition present (t : tnode) (path : string) : bool :=
  match search_tree_for_value (to_json t) path with
  | Ret JNull => false
  | _ => true
  end.

(** Whether an event is [dev.off()] on the device of [pin]. *)
Definition is_off (pin : nat) (e : event) : bool :=
  match e with Off p => Nat.eqb p pin | _ => false end.

Definition count_off (pin : nat) (tr : list event) : nat :=
  length (filter (is_off pin) tr).


(** Whether an event writes a ratio in [0, 1] (logs and [off()] do). *)
Definition writes_unit (e : event) : Prop :=
  match e with
  | SetValue _ r => (0 <= r <= 1)%Q
  | _ => True
  end.

(** Whether an event is a log line. *)
Definition is_log (e : event) : Prop := exists lv m, e = Log lv m.

(** ** Test fixtures *)

(** A node as the OSCQuery server sends it. *)
Definition node (path : string) (value : option json)
  (children : list (string * json)) : json :=
  JObj ([("FULL_PATH", JStr path)] ++
        match value with Some v => [("value", v)] | None => [] end ++
        [("CONTENTS", JObj children)]).

(** A snapshot with nested children and both spellings of the value field. *)
Definition sample_tree : tnode :=
  TNode "/" []
    [("a", TNode "/a" [("value", JList [JNum 1])]
             [("x", TNode "/a/x" [("value", JNum 2)] [])]);
     ("b", TNode "/b" [("VALUE", JNum 3)] [])].

(** Snapshots with the two candidate output nodes, nested as in RNBO. *)
Definition inst_tree (v0 v1 : list (string * json)) : tnode :=
  TNode "/rnbo" []
    [("inst", TNode "/rnbo/inst" []
       [("0", TNode (TARGET_PATH 0) v0 []);
        ("1", TNode (TARGET_PATH 1) v1 [])])].

(** A snapshot where the first candidate output holds 50. *)
Definition good_tree : json := to_json (inst_tree [("value", JNum 50)] []).

(** Well-formed JSON whose root has a list under CONTENTS. *)
Definition contents_list_tree : json := JObj [("CONTENTS", JList [JNum 0])].

(** A status 200 response with the JSON [t]. *)
Definition ok (t : json) : http_result := HResponse 200 (Some t).

Example candidate_paths_eq :
  candidate_paths = ["/rnbo/inst/0/messages/out/output1";
                     "/rnbo/inst/1/messages/out/output1"].
Proof. reflexivity. Qed.

Example fixture_exact :
  search_tree_for_value
    (node "/root" None [("a", node "/root/a" (Some (JList [JNum 42])) [])])
    "/root/a" = Ret (JNum 42)
  /\ search_tree_for_value
    (node "/root" None [("a", node "/root/a" (Some (JList [JNum 42])) [])])
    "/root/b" = Ret JNull.
Proof. split; reflexivity. Qed.

Example float_strings :
  to_float (JStr "abc") = None /\ to_float (JStr " 3.5 ") = Some (35 # 10)%Q
  /\ to_float (JStr "-1e2") = Some (-100 # 1)%Q /\ to_float (JStr ".") = None
  /\ py_float (JStr " -Infinity") = Ret (Some (Inf true))
  /\ py_float (JStr "nAn ") = Ret (Some NaN)
  /\ py_float (JStr "infinit") = Ret None
  /\ to_float (JStr "1_000") = Some 1000%Q
  /\ to_float (JStr "1__0") = None /\ to_float (JStr "1_.5") = None
  /\ py_float (JStr "1e400") = Ret (Some (Inf false))
  /\ py_float (JNum (inject_Z (2 ^ 1024))) = Raise OverflowError.
Proof. repeat split; vm_compute; reflexivity. Qed.

(** The saturation the spec describes (section 4.5), to compare with the
    [max]/[min] of line 126. *)
Definition clamp_spec (x : Q) : Q :=
  if Qlt_le_dec x 0 then 0%Q else if Qlt_le_dec 100 x then 100%Q else x.

(** * Properties *)
Lemma clamp_eq_spec (x : Q) : (clamp x == clamp_spec x)%Q.
Proof.
  unfold clamp, clamp_spec.
  destruct (Qlt_le_dec x 100); destruct (Qlt_le_dec x 0);
    try destruct (Qlt_le_dec 100 x); try destruct (Qlt_le_dec 0 x);
    try destruct (Qlt_le_dec 0 100); lra.
Qed.

Lemma clamp_range (x : Q) : (0 <= clamp x <= 100)%Q.
Proof.
  unfold clamp.
  destruct (Qlt_le_dec x 100); try destruct (Qlt_le_dec 0 x);
    try destruct (Qlt_le_dec 0 100); lra.
Qed.

(** C2: actuation saturates the percentage into [0, 100], drives the ratio
    [clamp(p)/100], which lies in [0, 1], and writes that same ratio to the
    motor and to every LED; [actuate(-5)] gives 0 and [actuate(200)] gives 1. *)
Theorem actuate_writes_clamped_ratio (x : Q) :
  let r := (clamp x / 100)%Q in
  actuate x = [SetValue MOTOR_PIN r; SetValue 26 r; SetValue 19 r;
               SetValue 13 r; Log Info (MSet (clamp x))]
  /\ (r == clamp_spec x / 100)%Q
  /\ (0 <= r <= 1)%Q
  /\ (clamp (-5) / 100 == 0)%Q
  /\ (clamp 200 / 100 == 1)%Q.
Proof.
  intro r. split; [reflexivity|]. split.
  { unfold r. rewrite clamp_eq_spec. reflexivity. }
  split.
  { unfold r. pose proof (clamp_range x) as [H0 H1]. split.
    - apply Qle_shift_div_l; lra.
    - apply Qle_shift_div_r; lra. }
  split; reflexivity.
Qed.

(** ** Pre-order search *)

Lemma tnode_ind' (P : tnode -> Prop)
  (H : forall p fs cs, Forall (fun kc => P (snd kc)) cs -> P (TNode p fs cs)) :
  forall t, P t.
Proof.
  fix IH 1. intros [p fs cs]. apply H.
  exact ((fix go (l : list (string * tnode)) : Forall (fun kc => P (snd kc)) l :=
            match l with
            | [] => Forall_nil _
            | (k, c) :: l' => @Forall_cons _ (fun kc => P (snd kc)) (k, c) l' (IH c) (go l')
            end) cs).
Qed.

Lemma to_json_TNode p fs cs :
  to_json (TNode p fs cs) =
  JObj (("FULL_PATH", JStr p) :: ("CONTENTS", JObj (encode_children cs)) :: fs).
Proof. reflexivity. Qed.

Lemma preorder_TNode p fs cs :
  preorder (TNode p fs cs) = TNode p fs cs :: preorder_children cs.
Proof. reflexivity. Qed.

Lemma search_to_json_unfold p fs cs target :
  search_tree_for_value (to_json (TNode p fs cs)) target =
  if String.eqb p target then Ret (node_value fs)
  else search_children target (encode_children cs).
Proof.
  rewrite to_json_TNode. simpl. unfold path_matches. simpl.
  destruct (String.eqb p target); [reflexivity|].
  destruct cs as [|[k c] cs]; reflexivity.
Qed.

Lemma search_children_cons target k v l :
  search_children target ((k, v) :: l) =
  match search_tree_for_value v target with
  | Ret JNull => search_children target l
  | r => r
  end.
Proof. reflexivity. Qed.

Lemma find_app {A} (f : A -> bool) l1 l2 :
  find f (l1 ++ l2) = match find f l1 with Some x => Some x | None => find f l2 end.
Proof. induction l1 as [|x l1 IH]; simpl; [reflexivity|]. destruct (f x); auto. Qed.

Lemma count_match_app target l1 l2 :
  count_match target (l1 ++ l2) = count_match target l1 + count_match target l2.
Proof. unfold count_match. rewrite filter_app, length_app. reflexivity. Qed.

Lemma count_match_zero_find target l :
  count_match target l = 0 ->
  find (fun n => String.eqb (tn_path n) target) l = None.
Proof.
  unfold count_match. induction l as [|x l IH]; simpl; [reflexivity|].
  destruct (String.eqb (tn_path x) target); simpl; [discriminate|exact IH].
Qed.

Lemma find_count_pos target l n :
  find (fun n => String.eqb (tn_path n) target) l = Some n ->
  1 <= count_match target l.
Proof.
  unfold count_match. induction l as [|x l IH]; simpl; [discriminate|].
  destruct (String.eqb (tn_path x) target); simpl; [lia|exact IH].
Qed.

Lemma count_match_notin target l :
  ~ In target (map tn_path l) -> count_match target l = 0.
Proof.
  unfold count_match. induction l as [|x l IH]; simpl; [reflexivity|].
  intros Hn. destruct (String.eqb (tn_path x) target) eqn:E.
  - apply String.eqb_eq in E. exfalso. apply Hn. left. exact E.
  - apply IH. intros Hi. apply Hn. right. exact Hi.
Qed.

Lemma count_match_nodup target l :
  NoDup (map tn_path l) -> count_match target l <= 1.
Proof.
  induction l as [|x l IH]; simpl; intros Hnd; [unfold count_match; simpl; lia|].
  apply NoDup_cons_iff in Hnd as [Hx Hnd].
  unfold count_match in *. simpl.
  destruct (String.eqb (tn_path x) target) eqn:E; simpl.
  - apply String.eqb_eq in E. subst target.
    pose proof (count_match_notin (tn_path x) l Hx) as H0.
    unfold count_match in H0. lia.
  - apply IH. exact Hnd.
Qed.

Lemma search_children_first target cs :
  Forall (fun kc => forall target, count_match target (preorder (snd kc)) <= 1 ->
            search_tree_for_value (to_json (snd kc)) target
            = Ret (locate_spec (snd kc) target)) cs ->
  count_match target (preorder_children cs) <= 1 ->
  search_children target (encode_children cs) =
  Ret (match find (fun n => String.eqb (tn_path n) target) (preorder_children cs) with
       | Some n => tn_value n
       | None => JNull
       end).
Proof.
  induction cs as [|[k c] cs IH]; intros Hall Hc; [reflexivity|].
  inversion Hall as [|? ? Hcs Hrest]; subst. simpl in Hcs.
  change (preorder_children ((k, c) :: cs)) with (preorder c ++ preorder_children cs) in *.
  change (encode_children ((k, c) :: cs)) with ((k, to_json c) :: encode_children cs).
  rewrite count_match_app in Hc.
  rewrite search_children_cons, Hcs by lia. unfold locate_spec.
  rewrite find_app.
  destruct (find (fun n => String.eqb (tn_path n) target) (preorder c)) as [n|] eqn:E.
  - pose proof (find_count_pos target _ n E) as Hpos.
    assert (Hz : count_match target (preorder_children cs) = 0) by lia.
    destruct (tn_value n) eqn:Ev; try reflexivity.
    rewrite IH by (auto; lia). rewrite (count_match_zero_find _ _ Hz). reflexivity.
  - apply IH; [exact Hrest | lia].
Qed.

Lemma search_first_match_aux (t : tnode) :
  forall target, count_match target (preorder t) <= 1 ->
  search_tree_for_value (to_json t) target = Ret (locate_spec t target).
Proof.
  induction t as [p fs cs Hcs] using tnode_ind'. intros target Hc.
  rewrite search_to_json_unfold. unfold locate_spec.
  rewrite preorder_TNode in *. simpl.
  destruct (String.eqb p target) eqn:E; [reflexivity|].
  apply search_children_first; [exact Hcs|].
  unfold count_match in *. simpl in Hc. rewrite E in Hc. exact Hc.
Qed.

(** C3: in a snapshot whose paths are unique, [search_tree_for_value]
    returns the value of the first node, in the pre-order traversal that
    tests a node before its children and visits children in insertion
    order, whose path is the target, and absent ([None]) when there is no
    such node. *)
Theorem search_tree_first_preorder_match (t : tnode) (target : string)
  (Huniq : NoDup (map tn_path (preorder t))) :
  search_tree_for_value (to_json t) target = Ret (locate_spec t target).
Proof.
  apply search_first_match_aux. apply count_match_nodup. exact Huniq.
Qed.

(** ** Discovery *)

Lemma search_to_json_ret (t : tnode) :
  forall target, exists v, search_tree_for_value (to_json t) target = Ret v.
Proof.
  induction t as [p fs cs Hcs] using tnode_ind'. intros target.
  rewrite search_to_json_unfold. destruct (String.eqb p target); [eauto|].
  induction cs as [|[k c] cs IH]; [exists JNull; reflexivity|].
  inversion Hcs as [|? ? Hc Hrest]; subst. simpl in Hc.
  change (encode_children ((k, c) :: cs)) with ((k, to_json c) :: encode_children cs).
  rewrite search_children_cons. destruct (Hc target) as [v Hv]. rewrite Hv.
  destruct v; eauto.
Qed.

Lemma probe_to_json (t : tnode) cands :
  probe (to_json t) cands = Ret (find (present t) cands).
Proof.
  induction cands as [|path cands IH]; [reflexivity|]. simpl.
  unfold present. destruct (search_to_json_ret t path) as [v Hv]. rewrite Hv.
  destruct v; try reflexivity. exact IH.
Qed.

Lemma truthy_to_json (t : tnode) : truthy (to_json t) = true.
Proof. destruct t; reflexivity. Qed.

(** C4: discovery checks the candidate paths in ascending index order
    ([/rnbo/inst/0/...] before [/rnbo/inst/1/...]) and, on a fetched
    snapshot, resolves to the first candidate whose value is present. *)
Theorem discovery_resolves_first_present (t : tnode) (rest : list dstep)
  (path : string) (Hfirst : find (present t) candidate_paths = Some path) :
  fst (get_dynamic_output_path (DAttempt (Some (to_json t)) :: rest))
  = Ret (Some path).
Proof.
  unfold get_dynamic_output_path. cbn [discovery_loop].
  rewrite truthy_to_json, probe_to_json, Hfirst. reflexivity.
Qed.

(** ** Channel ratios along a run *)
(** ** Channel ratios along a run *)

Lemma ratio_after_app pin r0 l1 l2 :
  ratio_after pin r0 (l1 ++ l2) = ratio_after pin (ratio_after pin r0 l1) l2.
Proof.
  revert r0. induction l1 as [|e l1 IH]; intros r0; [reflexivity|].
  destruct e; simpl; apply IH.
Qed.


Lemma leds_off_zero pin r0 :
  In pin LED_PINS -> ratio_after pin r0 leds_off = 0%Q.
Proof. intros [<-|[<-|[<-|[]]]]; reflexivity. Qed.

Lemma cleanup_zero pin r0 :
  In pin all_channels -> ratio_after pin r0 cleanup = 0%Q.
Proof. intros [<-|[<-|[<-|[<-|[]]]]]; reflexivity. Qed.






Lemma count_off_notin pin tr : ~ In (Off pin) tr -> count_off pin tr = 0.
Proof.
  unfold count_off. induction tr as [|e tr IH]; intros H; [reflexivity|].
  simpl. destruct e as [p r|p|lv m]; simpl.
  - apply IH. intros Hi. apply H. right. exact Hi.
  - destruct (Nat.eqb p pin) eqn:E.
    + apply Nat.eqb_eq in E. subst. exfalso. apply H. left. reflexivity.
    + apply IH. intros Hi. apply H. right. exact Hi.
  - apply IH. intros Hi. apply H. right. exact Hi.
Qed.

Lemma count_off_app pin l1 l2 :
  count_off pin (l1 ++ l2) = count_off pin l1 + count_off pin l2.
Proof. unfold count_off. rewrite filter_app, length_app. reflexivity. Qed.

(** ** The polling cycle *)

Lemma fetch_warns_logs h : Forall is_log (snd (fetch_full_tree h)).
Proof.
  destruct h as [status [tree|]| |]; cbn [fetch_full_tree];
    try destruct (Z.eqb status 200); repeat constructor; eexists; eexists; reflexivity.
Qed.

Lemma poll_cycle_shape fetched path tr :
  poll_cycle fetched path = Ret tr ->
  (exists m, tr = [Log Warning m]) \/ (exists f, tr = actuate_float f).
Proof.
  unfold poll_cycle. intros H.
  destruct (get_parameter_value fetched path) as [v|e]; [|discriminate].
  destruct v;
    try (destruct (py_float _) as [[f|]|e]; inversion H; subst;
         [right; eauto | left; eauto]).
  inversion H; subst. left. eauto.
Qed.

(** The cycle on a value that is not [None]. *)
Lemma poll_cycle_value fetched path v :
  get_parameter_value fetched path = Ret v -> v <> JNull ->
  poll_cycle fetched path =
  match py_float v with
  | Raise e => Raise e
  | Ret (Some f) => Ret (actuate_float f)
  | Ret None => Ret [Log Warning (MInvalid v)]
  end.
Proof.
  intros Hg Hv. unfold poll_cycle. rewrite Hg. destruct v; congruence || reflexivity.
Qed.

Lemma poll_cycle_http_cases h path r tr :
  poll_cycle_http h path = (r, tr) ->
  exists warns, Forall is_log warns /\
    ((exists e, r = Raise e /\ tr = warns)
     \/ (r = Ret tt /\ ((exists m, tr = warns ++ [Log Warning m])
                        \/ (exists f, tr = warns ++ actuate_float f)))).
Proof.
  unfold poll_cycle_http. intros H.
  pose proof (fetch_warns_logs h) as Hw.
  destruct (fetch_full_tree h) as [fr warns]. cbn [snd] in Hw.
  exists warns. split; [exact Hw|].
  destruct fr as [tree|e].
  - destruct (poll_cycle (Some tree) path) as [ctr|e] eqn:Ec; inversion H; subst.
    + right. split; [reflexivity|].
      destruct (poll_cycle_shape _ _ _ Ec) as [[m ->]|[f ->]]; eauto.
    + left. eauto.
  - inversion H; subst. left. eauto.
Qed.

(** A cycle whose fetch returned [tree] in which the path has no value. *)
Lemma poll_cycle_http_failed h path :
  (exists tree, fst (fetch_full_tree h) = Ret tree
                /\ get_parameter_value (Some tree) path = Ret JNull) ->
  poll_cycle_http h path = (Ret tt, snd (fetch_full_tree h) ++ [Log Warning MFailedGet]).
Proof.
  intros [tree [Hf Hg]]. unfold poll_cycle_http.
  destruct (fetch_full_tree h) as [fr warns]. cbn [fst snd] in *. subst fr.
  unfold poll_cycle. rewrite Hg. reflexivity.
Qed.

Lemma poll_cycle_http_ok t path v f :
  get_parameter_value (Some t) path = Ret v -> v <> JNull -> py_float v = Ret (Some f) ->
  poll_cycle_http (ok t) path = (Ret tt, actuate_float f).
Proof.
  intros Hg Hv Hf. unfold poll_cycle_http.
  change (fetch_full_tree (ok t)) with (@Ret json t, @nil event). cbv beta iota.
  rewrite (poll_cycle_value _ _ v Hg Hv), Hf. reflexivity.
Qed.

Lemma actuate_float_fin x : actuate_float (Fin x) = actuate x.
Proof. reflexivity. Qed.

Lemma in_logs_no_off pin l : Forall is_log l -> ~ In (Off pin) l.
Proof.
  intros H Hi. rewrite Forall_forall in H. destruct (H _ Hi) as [lv [m E]]. discriminate E.
Qed.

Lemma actuate_float_no_off pin f : ~ In (Off pin) (actuate_float f).
Proof. simpl. intuition discriminate. Qed.

Lemma poll_cycle_http_no_off h path r tr pin :
  poll_cycle_http h path = (r, tr) -> ~ In (Off pin) tr.
Proof.
  intros H. destruct (poll_cycle_http_cases _ _ _ _ H) as [w [Hw Hc]].
  pose proof (in_logs_no_off pin w Hw) as Hn.
  destruct Hc as [[e [_ ->]]|[_ [[m ->]|[f ->]]]]; [exact Hn| |];
    rewrite in_app_iff; intros [Hi|Hi]; try exact (Hn Hi).
  - destruct Hi as [Hi|[]]. discriminate Hi.
  - exact (actuate_float_no_off pin f Hi).
Qed.

(** ** The polling loop *)

Lemma loop_exit_cleanup e pre o tr :
  loop_exit e pre = (o, tr) -> o <> Running /\ exists pre', tr = pre' ++ cleanup.
Proof.
  destruct e; cbn [loop_exit]; intros H; inversion H; subst;
    (split; [discriminate|]).
  all: try (exists pre; reflexivity).
  exists (pre ++ [Log Info MInterrupted]). rewrite <- app_assoc. reflexivity.
Qed.


Lemma poll_loop_app path cs env tr :
  poll_loop path cs = (Running, tr) ->
  poll_loop path (cs ++ env) =
  (fst (poll_loop path env), tr ++ snd (poll_loop path env)).
Proof.
  revert tr. induction cs as [|s cs IH]; intros tr H.
  - simpl in H. inversion H; subst. simpl. destruct (poll_loop path env); reflexivity.
  - destruct s as [h| |]; cbn [poll_loop app] in H |- *.
    + destruct (poll_cycle_http h path) as [r tr1]. destruct r as [u|e].
      * destruct (poll_loop path cs) as [o' tr'] eqn:E. inversion H; subst.
        rewrite (IH tr' eq_refl). rewrite app_assoc. reflexivity.
      * apply loop_exit_cleanup in H. destruct H as [H _]. congruence.
    + inversion H.
    + inversion H.
Qed.

Lemma poll_loop_running_no_off path cs tr pin :
  poll_loop path cs = (Running, tr) -> ~ In (Off pin) tr.
Proof.
  revert tr. induction cs as [|s cs IH]; intros tr H.
  - simpl in H. inversion H; subst. simpl. tauto.
  - destruct s as [h| |]; cbn [poll_loop] in H; [|inversion H|inversion H].
    destruct (poll_cycle_http h path) as [r tr1] eqn:Ec. destruct r as [u|e].
    + destruct (poll_loop path cs) as [o' tr'] eqn:E. inversion H; subst.
      rewrite in_app_iff. intros [Hi|Hi].
      * exact (poll_cycle_http_no_off _ _ _ _ pin Ec Hi).
      * exact (IH tr' eq_refl Hi).
    + apply loop_exit_cleanup in H. destruct H as [H _]. congruence.
Qed.

(** An interrupt after cycles that all completed, during the sleep or
    during the next fetch. *)
Lemma poll_loop_interrupt path cs tr rest :
  poll_loop path cs = (Running, tr) ->
  poll_loop path (cs ++ LInterrupt :: rest) = (Returned, tr ++ Log Info MInterrupted :: cleanup)
  /\ poll_loop path (cs ++ LCycle HInterrupt :: rest)
     = (Returned, tr ++ Log Info MInterrupted :: cleanup).
Proof.
  intros H. rewrite !(poll_loop_app path cs _ tr H). split; reflexivity.
Qed.

Lemma polling_phase_eq path env :
  polling_phase path env = (fst (poll_loop path env), Log Info (MPolling path) :: snd (poll_loop path env)).
Proof. unfold polling_phase. destruct (poll_loop path env); reflexivity. Qed.

(** ** [main] *)

(** The motor and the LEDs of [main] hold pins 5, 26, 19 and 13 when it
    calls [get_dynamic_output_path], whose line 74 asks for 26 again. *)
Lemma main_eq resolved denv lenv :
  main resolved denv lenv =
  match resolved with
  | Raise e => (Raised e, [])
  | Ret None => (Returned, [Log Error MHostUnresolved])
  | Ret (Some _) => (Raised GPIOPinInUse, [])
  end.
Proof. destruct resolved as [[url|]|e]; reflexivity. Qed.


Lemma find_path_nodup (l : list tnode) (n : tnode) :
  NoDup (map tn_path l) -> In n l ->
  find (fun m => String.eqb (tn_path m) (tn_path n)) l = Some n.
Proof.
  induction l as [|a l IH]; intros Hnd Hin; [destruct Hin|].
  simpl in Hnd. apply NoDup_cons_iff in Hnd as [Ha Hnd].
  simpl. destruct Hin as [<-|Hin].
  - rewrite String.eqb_refl. reflexivity.
  - destruct (String.eqb (tn_path a) (tn_path n)) eqn:E.
    + apply String.eqb_eq in E. exfalso. apply Ha. rewrite E. apply in_map. exact Hin.
    + apply IH; assumption.
Qed.

(** In a snapshot with unique paths, the search at the path of one of its
    nodes reads that node's value. *)
Lemma search_node_value (t n : tnode) :
  NoDup (map tn_path (preorder t)) -> In n (preorder t) ->
  search_tree_for_value (to_json t) (tn_path n) = Ret (tn_value n).
Proof.
  intros Hnd Hin. rewrite search_first_match_aux by (apply count_match_nodup; exact Hnd).
  unfold locate_spec. rewrite (find_path_nodup _ _ Hnd Hin). reflexivity.
Qed.

(** ** Exits of [main] *)



(** ** The polling loop *)

(** C8: an interrupt during the sleep that follows any number of completed
    cycles makes the loop exit into its [except KeyboardInterrupt] and its
    [finally], which turns the motor and every LED off once each (no cycle
    turns a device off), so every channel ends at ratio 0 whatever it
    showed before. *)
Theorem interrupt_in_sleep_releases_once (path : string) (cs : list lstep)
  (tr : list event) (Hrun : poll_loop path cs = (Running, tr)) :
  polling_phase path (cs ++ [LInterrupt]) =
    (Returned, Log Info (MPolling path) :: tr ++ Log Info MInterrupted :: cleanup)
  /\ (forall pre pin, In pin all_channels ->
        ratio pin (pre ++ snd (polling_phase path (cs ++ [LInterrupt]))) = 0%Q)
  /\ (forall pin, In pin all_channels ->
        count_off pin (snd (polling_phase path (cs ++ [LInterrupt]))) = 1).
Proof.
  assert (Hp : polling_phase path (cs ++ [LInterrupt]) =
    (Returned, Log Info (MPolling path) :: tr ++ Log Info MInterrupted :: cleanup)).
  { rewrite polling_phase_eq, (proj1 (poll_loop_interrupt path cs tr [] Hrun)). reflexivity. }
  split; [exact Hp|split].
  - intros pre pin Hin. rewrite Hp. cbn [snd]. unfold ratio.
    replace (pre ++ Log Info (MPolling path) :: tr ++ Log Info MInterrupted :: cleanup)
      with ((pre ++ Log Info (MPolling path) :: tr ++ [Log Info MInterrupted]) ++ cleanup)
      by (rewrite <- app_assoc; simpl; rewrite <- app_assoc; reflexivity).
    rewrite ratio_after_app. apply cleanup_zero. exact Hin.
  - intros pin Hin. rewrite Hp. cbn [snd].
    change (Log Info (MPolling path) :: tr ++ Log Info MInterrupted :: cleanup)
      with ([Log Info (MPolling path)] ++ tr ++ Log Info MInterrupted :: cleanup).
    rewrite !count_off_app.
    rewrite (count_off_notin pin tr (poll_loop_running_no_off path cs tr pin Hrun)).
    destruct Hin as [<-|[<-|[<-|[<-|[]]]]]; reflexivity.
Qed.

(** C9: the path of the polling loop is fixed: after any number of cycles
    that got no value (failed fetch, [None] from the server, or a snapshot
    without a value at the path), a cycle whose fetch yields a value that
    [float] reads actuates with it on that cycle; nothing runs discovery
    again. *)
Theorem resolved_path_persists (path : string) (fails : list http_result)
  (t v : json) (f : pyfloat) (rest : list lstep)
  (Hfail : Forall (fun h => exists tree, fst (fetch_full_tree h) = Ret tree
                     /\ get_parameter_value (Some tree) path = Ret JNull) fails)
  (Hval : get_parameter_value (Some t) path = Ret v) (Hv : v <> JNull)
  (Hf : py_float v = Ret (Some f)) :
  polling_phase path (map LCycle fails ++ LCycle (ok t) :: rest) =
  (fst (poll_loop path rest),
   Log Info (MPolling path)
     :: concat (map (fun h => snd (fetch_full_tree h) ++ [Log Warning MFailedGet]) fails)
     ++ actuate_float f ++ snd (poll_loop path rest)).
Proof.
  assert (H : poll_loop path (map LCycle fails ++ LCycle (ok t) :: rest) =
    (fst (poll_loop path rest),
     concat (map (fun h => snd (fetch_full_tree h) ++ [Log Warning MFailedGet]) fails)
       ++ actuate_float f ++ snd (poll_loop path rest))).
  { induction Hfail as [|h fails Hh Hfails IH]; cbn [map app poll_loop concat].
    - rewrite (poll_cycle_http_ok t path v f Hval Hv Hf).
      destruct (poll_loop path rest); reflexivity.
    - rewrite (poll_cycle_http_failed h path Hh), IH. cbn [fst snd].
      rewrite <- !app_assoc. reflexivity. }
  rewrite polling_phase_eq, H. reflexivity.
Qed.

(** ** Extraction of the value *)

(** C10: in a snapshot with unique paths, when the node at the path of the
    cycle, at any depth, has a falsy [value] (0, 0.0, False, "", null or
    none) and no [VALUE], [value or VALUE] is [None] and the search goes on
    through the later nodes, none of which has that path: the cycle only
    logs a warning and every channel keeps its ratio; the same 0 published
    as [[0]] drives every channel to 0. *)
Theorem falsy_value_skipped (t n : tnode)
  (Huniq : NoDup (map tn_path (preorder t))) (Hin : In n (preorder t)) :
  (truthy (dict_get (tn_fields n) "value") = false ->
   dict_get (tn_fields n) "VALUE" = JNull ->
   poll_cycle (Some (to_json t)) (tn_path n) = Ret [Log Warning MFailedGet]
   /\ (forall tr pin, ratio pin (tr ++ [Log Warning MFailedGet]) = ratio pin tr))
  /\ (dict_get (tn_fields n) "value" = JList [JNum 0] ->
      poll_cycle (Some (to_json t)) (tn_path n) = Ret (actuate 0)
      /\ (forall tr pin, In pin all_channels -> (ratio pin (tr ++ actuate 0) == 0)%Q)).
Proof.
  pose proof (search_node_value t n Huniq Hin) as Hs.
  unfold poll_cycle, get_parameter_value. rewrite truthy_to_json, Hs.
  unfold tn_value, node_value. split.
  - intros Hf Hnone. rewrite Hf, Hnone. split; [reflexivity|].
    intros tr pin. unfold ratio. rewrite ratio_after_app. reflexivity.
  - intros H0. rewrite H0. split; [reflexivity|].
    intros tr pin Hp. unfold ratio. rewrite ratio_after_app.
    destruct Hp as [<-|[<-|[<-|[<-|[]]]]]; reflexivity.
Qed.

(** C6: a scalar value of 0 at the output node is dropped by
    [value or VALUE] instead of being read as 0.0: the cycle logs that it
    failed to get a value and does not actuate, although [float(0)] is 0.0.
    The other cases behave as documented: [[7]] actuates with 7, [[]] and
    ["abc"] do not actuate, 3.5 actuates with 3.5. *)
Theorem extraction_of_zero_scalar :
  to_float (JNum 0) = Some 0%Q
  /\ poll_cycle (Some (to_json (TNode "/out" [("value", JNum 0)] []))) "/out"
     = Ret [Log Warning MFailedGet]
  /\ poll_cycle (Some (to_json (TNode "/out" [("value", JList [JNum 7])] []))) "/out"
     = Ret (actuate 7)
  /\ poll_cycle (Some (to_json (TNode "/out" [("value", JList [])] []))) "/out"
     = Ret [Log Warning MFailedGet]
  /\ poll_cycle (Some (to_json (TNode "/out" [("value", JStr "abc")] []))) "/out"
     = Ret [Log Warning (MInvalid (JStr "abc"))]
  /\ poll_cycle (Some (to_json (TNode "/out" [("value", JNum (35 # 10))] []))) "/out"
     = Ret (actuate (35 # 10)).
Proof. repeat split; reflexivity. Qed.

(** ** Malformed snapshots in the polling loop *)

(** C5: a fetched snapshot whose CONTENTS is a list, with no node at the
    path, is not skipped like a failed fetch: [children.values()] raises
    [AttributeError] out of [get_parameter_value], which the cycle does not
    catch; the loop ends through its [finally] and the exception leaves
    [main], after the motor dropped from 0.5 to 0. *)
Theorem contents_list_crashes_loop :
  get_parameter_value_http (ok contents_list_tree) (TARGET_PATH 0) = Raise AttributeError
  /\ poll_cycle (Some contents_list_tree) (TARGET_PATH 0) = Raise AttributeError
  /\ polling_phase (TARGET_PATH 0) [LCycle (ok good_tree); LCycle (ok contents_list_tree)]
     = (Raised AttributeError,
        Log Info (MPolling (TARGET_PATH 0)) :: actuate 50 ++ cleanup)
  /\ (ratio MOTOR_PIN (snd (polling_phase (TARGET_PATH 0) [LCycle (ok good_tree)])) == 1 # 2)%Q
  /\ ratio MOTOR_PIN (snd (polling_phase (TARGET_PATH 0)
                            [LCycle (ok good_tree); LCycle (ok contents_list_tree)])) = 0%Q.
Proof. repeat split; vm_compute; reflexivity. Qed.

(** ** Concrete runs *)




Lemma search_tree_first_preorder_match_witness :
  NoDup (map tn_path (preorder sample_tree))
  /\ search_tree_for_value (to_json sample_tree) "/b" = Ret (JNum 3).
Proof.
  assert (H : NoDup (map tn_path (preorder sample_tree))).
  { simpl. repeat constructor; simpl; intuition discriminate. }
  split; [exact H|].
  rewrite (search_tree_first_preorder_match sample_tree "/b" H). reflexivity.
Defined.

Lemma discovery_resolves_first_present_witness :
  find (present (inst_tree [] [("value", JNum 5)])) candidate_paths = Some (TARGET_PATH 1)
  /\ fst (get_dynamic_output_path
            [DAttempt (Some (to_json (inst_tree [] [("value", JNum 5)])))])
     = Ret (Some (TARGET_PATH 1)).
Proof.
  assert (H : find (present (inst_tree [] [("value", JNum 5)])) candidate_paths
              = Some (TARGET_PATH 1)) by reflexivity.
  split; [exact H|].
  exact (discovery_resolves_first_present _ [] _ H).
Defined.

Example discovery_both_present_first :
  fst (get_dynamic_output_path
         [DAttempt (Some (to_json (inst_tree [("value", JNum 1)] [("value", JNum 5)])))])
  = Ret (Some (TARGET_PATH 0)).
Proof. reflexivity. Qed.


Lemma interrupt_in_sleep_releases_once_witness :
  poll_loop (TARGET_PATH 0) [LCycle (ok good_tree)]
     = (Running, snd (poll_loop (TARGET_PATH 0) [LCycle (ok good_tree)]))
  /\ ratio MOTOR_PIN (snd (polling_phase (TARGET_PATH 0)
                                ([LCycle (ok good_tree)] ++ [LInterrupt]))) = 0%Q.
Proof.
  assert (H : poll_loop (TARGET_PATH 0) [LCycle (ok good_tree)]
              = (Running, snd (poll_loop (TARGET_PATH 0) [LCycle (ok good_tree)])))
    by (vm_compute; reflexivity).
  split; [exact H|].
  exact (proj1 (proj2 (interrupt_in_sleep_releases_once _ _ _ H)) [] MOTOR_PIN
           (or_introl eq_refl)).
Defined.

Lemma resolved_path_persists_witness :
  get_parameter_value (Some good_tree) (TARGET_PATH 0) = Ret (JNum 50)
  /\ polling_phase (TARGET_PATH 0)
       (map LCycle [HException; HResponse 404 None; ok JNull; ok (to_json (inst_tree [] []))]
          ++ [LCycle (ok good_tree)])
     = (Running,
        [Log Info (MPolling (TARGET_PATH 0));
         Log Warning MFetchException; Log Warning MFailedGet;
         Log Warning (MFetchStatus 404); Log Warning MFailedGet;
         Log Warning MFailedGet; Log Warning MFailedGet] ++ actuate 50).
Proof.
  assert (H1 : get_parameter_value (Some good_tree) (TARGET_PATH 0) = Ret (JNum 50))
    by (vm_compute; reflexivity).
  assert (Hf : Forall (fun h => exists tree, fst (fetch_full_tree h) = Ret tree
                 /\ get_parameter_value (Some tree) (TARGET_PATH 0) = Ret JNull)
                 [HException; HResponse 404 None; ok JNull; ok (to_json (inst_tree [] []))]).
  { repeat apply Forall_cons; try apply Forall_nil;
      (eexists; split; [reflexivity | vm_compute; reflexivity]). }
  split; [exact H1|].
  rewrite (resolved_path_persists _ _ good_tree (JNum 50) (Fin 50) [] Hf H1
             ltac:(discriminate) eq_refl).
  reflexivity.
Defined.

Lemma falsy_value_skipped_witness :
  poll_cycle (Some (to_json (inst_tree [("value", JNum 0)] [("value", JNum 5)])))
    (TARGET_PATH 0) = Ret [Log Warning MFailedGet]
  /\ poll_cycle (Some (to_json (inst_tree [("value", JList [JNum 0])] [("value", JNum 5)])))
    (TARGET_PATH 0) = Ret (actuate 0).
Proof.
  assert (Hu : forall v0 v1, NoDup (map tn_path (preorder (inst_tree v0 v1)))).
  { intros v0 v1. simpl. repeat constructor; simpl; intuition discriminate. }
  assert (Hi : forall v0 v1, In (TNode (TARGET_PATH 0) v0 []) (preorder (inst_tree v0 v1)))
    by (intros v0 v1; simpl; tauto).
  split.
  - exact (proj1 (proj1 (falsy_value_skipped _ _ (Hu _ _) (Hi [("value", JNum 0)]
             [("value", JNum 5)])) eq_refl eq_refl)).
  - exact (proj1 (proj2 (falsy_value_skipped _ _ (Hu _ _) (Hi [("value", JList [JNum 0])]
             [("value", JNum 5)])) eq_refl)).
Defined.

(** * Further properties of the code *)

(** ** The search on arbitrary JSON *)

(** [children = tree.get("CONTENTS") or {}]: the scan over the entries is
    [dict_get kvs "CONTENTS"]. *)
Lemma search_obj_contents kvs target :
  search_tree_for_value (JObj kvs) target =
  if path_matches kvs target then Ret (node_value kvs)
  else
    let c := dict_get kvs "CONTENTS" in
    if truthy c then
      match c with
      | JObj cs => search_children target cs
      | _ => Raise AttributeError
      end
    else Ret JNull.
Proof.
  cbn [search_tree_for_value]. destruct (path_matches kvs target); [reflexivity|].
  clear. induction kvs as [|[k v] kvs IH]; [reflexivity|].
  cbn [dict_get]. destruct (String.eqb k "CONTENTS"); [|exact IH].
  destruct (truthy v); reflexivity.
Qed.

(** On a snapshot, a path that no node carries is answered with [None],
    whether or not the paths of the snapshot are unique. *)
Theorem search_absent_path_none (t : tnode) (target : string)
  (Habs : ~ In target (map tn_path (preorder t))) :
  search_tree_for_value (to_json t) target = Ret JNull.
Proof.
  pose proof (count_match_notin target _ Habs) as Hz.
  rewrite (search_first_match_aux t target) by lia.
  unfold locate_spec. rewrite (count_match_zero_find _ _ Hz). reflexivity.
Qed.

(** ** Actuation and the polling cycle *)

Lemma clamp_monotone (x y : Q) : (x <= y)%Q -> (clamp x <= clamp y)%Q.
Proof.
  intros Hxy. unfold clamp.
  destruct (Qlt_le_dec x 100); destruct (Qlt_le_dec y 100);
    try destruct (Qlt_le_dec 0 x); try destruct (Qlt_le_dec 0 y);
    try destruct (Qlt_le_dec 0 100); lra.
Qed.

(** A larger percentage never drives a smaller ratio. *)
Theorem actuate_ratio_monotone (x y : Q) (Hxy : (x <= y)%Q) :
  (clamp x / 100 <= clamp y / 100)%Q.
Proof.
  unfold Qdiv. apply Qmult_le_compat_r.
  - apply clamp_monotone. exact Hxy.
  - compute. discriminate.
Qed.


(** ** [main] as written *)

(** Every run of [main] ends in one of three ways, decided by the host
    lookup: a failed lookup returns after one error log; an interrupt
    during the lookup escapes; a resolved host reaches line 113, where
    [get_dynamic_output_path] creates [PWMLED(26)] while [main]'s own LED
    holds that pin, so [GPIOPinInUse] escapes [main] before any device is
    written.  Called while no pin is in use, [get_dynamic_output_path]
    runs its loop. *)
Theorem main_outcomes (l : lookup_result) (denv : list dstep) (lenv : list lstep) :
  main (resolve_hostname l) denv lenv =
    match l with
    | Resolved _ => (Raised GPIOPinInUse, [])
    | Gaierror => (Returned, [Log Error MHostUnresolved])
    | LookupInterrupt => (Raised KeyboardInterrupt, [])
    end
  /\ get_dynamic_output_path_held [] denv = get_dynamic_output_path denv.
Proof. split; [rewrite main_eq; destruct l; reflexivity|reflexivity]. Qed.

(** ** The polling loop *)

(** An interrupt that arrives during a cycle's fetch ends the loop exactly
    as one that arrives during the sleep: the interrupt log, then the
    [finally]. *)
Theorem interrupt_during_fetch_like_sleep (path : string) (cs : list lstep)
  (tr : list event) (rest : list lstep) (Hrun : poll_loop path cs = (Running, tr)) :
  polling_phase path (cs ++ LCycle HInterrupt :: rest) = polling_phase path (cs ++ [LInterrupt])
  /\ polling_phase path (cs ++ LCycle HInterrupt :: rest) =
     (Returned, Log Info (MPolling path) :: tr ++ Log Info MInterrupted :: cleanup).
Proof.
  destruct (poll_loop_interrupt path cs tr [] Hrun) as [H1 _].
  destruct (poll_loop_interrupt path cs tr rest Hrun) as [_ H2].
  rewrite !polling_phase_eq, H1, H2. split; reflexivity.
Qed.

(** A value whose [float] is nan or +inf drives every channel to full
    power ([min(100, nan)] is 100); one whose [float] is -inf drives every
    channel to 0. *)
Theorem poll_cycle_nonfinite (t : json) (path : string) (v : json)
  (Hval : get_parameter_value (Some t) path = Ret v) :
  (py_float v = Ret (Some NaN) \/ py_float v = Ret (Some (Inf false)) ->
   poll_cycle (Some t) path = Ret (actuate 100))
  /\ (py_float v = Ret (Some (Inf true)) -> poll_cycle (Some t) path = Ret (actuate 0)).
Proof.
  assert (Hv : forall f, py_float v = Ret (Some f) -> v <> JNull)
    by (intros f Hf E; subst v; discriminate Hf).
  split.
  - intros [H|H]; rewrite (poll_cycle_value _ _ v Hval (Hv _ H)), H; reflexivity.
  - intros H. rewrite (poll_cycle_value _ _ v Hval (Hv _ H)), H. reflexivity.
Qed.

(** A cycle whose fetch fails (an exception, a status other than 200, or a
    body that is not JSON) logs the fetch warning of [fetch_full_tree] and
    then ["Failed to get RNBO value."]; a status 200 whose JSON is [null]
    logs only the latter. *)
Theorem failed_fetch_cycle_warns (h : http_result) (path : string)
  (Hno : forall t, h <> HResponse 200 (Some t)) (Hint : h <> HInterrupt) :
  (exists m, poll_cycle_http h path = (Ret tt, [Log Warning m; Log Warning MFailedGet])
             /\ (m = MFetchException \/ exists s, m = MFetchStatus s /\ s <> 200%Z))
  /\ poll_cycle_http (ok JNull) path = (Ret tt, [Log Warning MFailedGet]).
Proof.
  split; [|reflexivity].
  destruct h as [s [b|]| |].
  - destruct (Z.eqb s 200) eqn:E.
    + apply Z.eqb_eq in E. subst s. exfalso. exact (Hno b eq_refl).
    + exists (MFetchStatus s). unfold poll_cycle_http. cbn [fetch_full_tree]. rewrite E.
      split; [reflexivity|]. right. exists s. split; [reflexivity|].
      intros ->. discriminate E.
  - exists (if Z.eqb s 200 then MFetchException else MFetchStatus s).
    unfold poll_cycle_http. cbn [fetch_full_tree].
    destruct (Z.eqb s 200) eqn:E; split; try reflexivity; [left; reflexivity|].
    right. exists s. split; [reflexivity|]. intros ->. discriminate E.
  - exists MFetchException. split; [reflexivity|left; reflexivity].
  - exfalso. exact (Hint eq_refl).
Qed.





(** ** Ratios written by the program *)

Lemma ratio_unit_clamp (x : Q) : (0 <= clamp x / 100 <= 1)%Q.
Proof.
  pose proof (clamp_range x) as [H0 H1]. split.
  - apply Qle_shift_div_l; lra.
  - apply Qle_shift_div_r; lra.
Qed.

Lemma blink_writes_unit (b : bool) :
  Forall writes_unit (map (fun pin => SetValue pin (if b then 1 else 0)%Q) LED_PINS).
Proof. destruct b; repeat constructor; cbn; lra. Qed.

Lemma leds_off_unit : Forall writes_unit leds_off.
Proof. repeat constructor. Qed.

Lemma cleanup_unit : Forall writes_unit cleanup.
Proof. repeat constructor. Qed.

Lemma discovery_loop_unit b env : Forall writes_unit (snd (discovery_loop b env)).
Proof.
  revert b. induction env as [|s env IH]; intros b; [constructor|].
  cbn [discovery_loop].
  destruct (discovery_loop (negb b) env) as [r tr] eqn:E.
  specialize (IH (negb b)). rewrite E in IH. cbn [snd] in IH.
  pose proof (blink_writes_unit b) as Hw.
  destruct s as [[tree|]|]; cbn [snd].
  - destruct (negb (truthy tree)); cbn [snd].
    + apply Forall_app. split; assumption.
    + destruct (probe tree candidate_paths) as [[path|]|e]; cbn [snd].
      * apply Forall_app. split; [exact Hw|].
        apply Forall_app. split; [exact leds_off_unit|]. repeat constructor.
      * apply Forall_app. split; assumption.
      * exact Hw.
  - apply Forall_app. split; assumption.
  - exact Hw.
Qed.

Lemma get_dynamic_output_path_unit env :
  Forall writes_unit (snd (get_dynamic_output_path env)).
Proof.
  unfold get_dynamic_output_path.
  pose proof (discovery_loop_unit true env) as H.
  destruct (discovery_loop true env) as [r tr]. cbn [snd] in *.
  apply Forall_app. split; [exact H|].
  apply Forall_app. split; [exact leds_off_unit|].
  destruct r as [[p|]|e]; repeat constructor.
Qed.

Lemma duty_of_range (f : pyfloat) : (0 <= duty_of f <= 100)%Q.
Proof. destruct f as [x|[|]|]; cbn [duty_of]; [apply clamp_range|lra|lra|lra]. Qed.

Lemma ratio_unit_duty (f : pyfloat) : (0 <= duty_of f / 100 <= 1)%Q.
Proof.
  pose proof (duty_of_range f) as [H0 H1]. split.
  - apply Qle_shift_div_l; lra.
  - apply Qle_shift_div_r; lra.
Qed.

Lemma logs_unit l : Forall is_log l -> Forall writes_unit l.
Proof.
  intros H. eapply Forall_impl; [|exact H]. intros e [lv [m ->]]. exact I.
Qed.

Lemma poll_cycle_http_unit h path r tr :
  poll_cycle_http h path = (r, tr) -> Forall writes_unit tr.
Proof.
  intros H. destruct (poll_cycle_http_cases _ _ _ _ H) as [w [Hw Hc]].
  pose proof (logs_unit w Hw) as Hu.
  destruct Hc as [[e [_ ->]]|[_ [[m ->]|[f ->]]]]; [exact Hu| |];
    apply Forall_app; split; try exact Hu; [repeat constructor|].
  pose proof (ratio_unit_duty f) as Hf.
  unfold actuate_float, set_all. repeat constructor; cbn; lra.
Qed.

Lemma poll_loop_unit path env : Forall writes_unit (snd (poll_loop path env)).
Proof.
  induction env as [|s env IH]; [constructor|].
  assert (Hx : forall e pre, Forall writes_unit pre ->
                 Forall writes_unit (snd (loop_exit e pre))).
  { intros e pre Hp. destruct e; cbn [loop_exit snd]; apply Forall_app;
      (split; [exact Hp|]); repeat constructor. }
  destruct s as [h| |]; cbn [poll_loop].
  - destruct (poll_cycle_http h path) as [r tr1] eqn:Ec.
    pose proof (poll_cycle_http_unit _ _ _ _ Ec) as H1.
    destruct r as [u|e]; [|exact (Hx e tr1 H1)].
    destruct (poll_loop path env) as [o tr'] eqn:E. cbn [snd] in *.
    apply Forall_app. split; assumption.
  - exact (Hx KeyboardInterrupt [] (Forall_nil _)).
  - exact (Hx OtherError [] (Forall_nil _)).
Qed.

(** Whatever happens (fetch results, interrupts, failures), every ratio the
    program writes to the motor or an LED lies in [0, 1]: in discovery,
    in the polling loop, in the code that follows discovery, and in
    [main]. *)
Theorem program_writes_unit_ratios (path : string) (env : list lstep)
  (denv : list dstep) (lenv : list lstep) (resolved : res (option string)) :
  Forall writes_unit (snd (polling_phase path env))
  /\ Forall writes_unit (snd (get_dynamic_output_path denv))
  /\ Forall writes_unit (snd (after_discovery (get_dynamic_output_path denv) lenv))
  /\ Forall writes_unit (snd (main resolved denv lenv)).
Proof.
  assert (Hp : forall path env, Forall writes_unit (snd (polling_phase path env))).
  { intros p e. rewrite polling_phase_eq. cbn [snd]. constructor; [exact I|apply poll_loop_unit]. }
  split; [apply Hp|split; [apply get_dynamic_output_path_unit|split]].
  - pose proof (get_dynamic_output_path_unit denv) as Hd. unfold after_discovery.
    destruct (get_dynamic_output_path denv) as [r dtr]. cbn [snd] in Hd.
    destruct r as [[p|]|e]; cbn [snd].
    + pose proof (Hp p lenv) as Hq. destruct (polling_phase p lenv) as [o ptr].
      cbn [snd] in *. apply Forall_app. split; assumption.
    + apply Forall_app. split; [exact Hd|]. repeat constructor.
    + exact Hd.
  - rewrite main_eq. destruct resolved as [[url|]|e]; repeat constructor.
Qed.

(** ** Discovery *)



(** A first snapshot whose root is not the first candidate and whose
    CONTENTS is truthy but not an object is not retried: the
    [AttributeError] of [children.values()] leaves [get_dynamic_output_path]
    through its [finally], after the LEDs were lit and turned off. *)
Theorem discovery_malformed_snapshot_fails (kvs : list (string * json))
  (rest : list dstep)
  (Hno : path_matches kvs (TARGET_PATH 0) = false)
  (Htr : truthy (dict_get kvs "CONTENTS") = true)
  (Hno_obj : forall cs, dict_get kvs "CONTENTS" <> JObj cs) :
  get_dynamic_output_path (DAttempt (Some (JObj kvs)) :: rest)
  = (Raise AttributeError, map (fun pin => SetValue pin 1%Q) LED_PINS ++ leds_off).
Proof.
  assert (Hs : search_tree_for_value (JObj kvs) (TARGET_PATH 0) = Raise AttributeError).
  { rewrite search_obj_contents, Hno. cbn zeta. rewrite Htr.
    destruct (dict_get kvs "CONTENTS"); try reflexivity.
    exfalso. exact (Hno_obj kvs0 eq_refl). }
  assert (Hk : truthy (JObj kvs) = true).
  { destruct kvs; [discriminate Htr|reflexivity]. }
  unfold get_dynamic_output_path. cbn [discovery_loop].
  rewrite Hk. cbn [negb]. unfold candidate_paths. cbn [map probe].
  rewrite Hs. reflexivity.
Qed.

(** ** Values [float] cannot represent *)

(** An int at the path too large for a float makes [float(val)] raise
    [OverflowError], which [except (ValueError, TypeError)] does not catch:
    the loop ends through its [finally] and the exception leaves [main]. *)
Theorem poll_cycle_overflow (t : json) (path : string) (q : Q)
  (Hval : get_parameter_value (Some t) path = Ret (JNum q))
  (Hq : overflows q = true) :
  poll_cycle (Some t) path = Raise OverflowError
  /\ (forall cs tr rest, poll_loop path cs = (Running, tr) ->
        polling_phase path (cs ++ LCycle (ok t) :: rest)
        = (Raised OverflowError, Log Info (MPolling path) :: tr ++ cleanup)).
Proof.
  assert (Hc : poll_cycle (Some t) path = Raise OverflowError).
  { rewrite (poll_cycle_value _ _ (JNum q) Hval ltac:(discriminate)).
    cbn [py_float]. rewrite Hq. reflexivity. }
  split; [exact Hc|].
  intros cs tr rest Hrun. rewrite polling_phase_eq, (poll_loop_app path cs _ tr Hrun).
  cbn [poll_loop]. unfold poll_cycle_http.
  change (fetch_full_tree (ok t)) with (@Ret json t, @nil event). cbv beta iota.
  rewrite Hc. reflexivity.
Qed.

(** ** Fetching *)

(** [fetch_full_tree] raises only on an interrupt; it logs at most one
    warning, and after a warning it returns [None]; a status 200 returns
    the parsed JSON, [None] included, without a warning; anything else it
    returns comes from such a response. *)
Theorem fetch_full_tree_contract (h : http_result) :
  (forall e, fst (fetch_full_tree h) = Raise e -> h = HInterrupt /\ e = KeyboardInterrupt)
  /\ length (snd (fetch_full_tree h)) <= 1
  /\ (snd (fetch_full_tree h) <> [] -> fst (fetch_full_tree h) = Ret JNull)
  /\ (forall tree, h = HResponse 200 (Some tree) -> fetch_full_tree h = (Ret tree, []))
  /\ (forall tree, fst (fetch_full_tree h) = Ret tree -> tree <> JNull ->
        h = HResponse 200 (Some tree)).
Proof.
  destruct h as [status body| |].
  - destruct (Z.eqb status 200) eqn:E.
    + apply Z.eqb_eq in E. subst status. destruct body as [tree|].
      * change (fetch_full_tree (HResponse 200 (Some tree))) with (@Ret json tree, @nil event).
        cbn [fst snd]. split; [|split; [|split; [|split]]].
        -- intros e H. discriminate H.
        -- cbn. lia.
        -- intros H. exfalso. apply H. reflexivity.
        -- intros tree' H. inversion H. reflexivity.
        -- intros tree' H _. inversion H. reflexivity.
      * change (fetch_full_tree (HResponse 200 None))
          with (@Ret json JNull, [Log Warning MFetchException]).
        cbn [fst snd]. split; [|split; [|split; [|split]]].
        -- intros e H. discriminate H.
        -- cbn. lia.
        -- intros _. reflexivity.
        -- intros tree H. discriminate H.
        -- intros tree H Hn. inversion H. congruence.
    + cbn [fetch_full_tree]. rewrite E. cbn [fst snd].
      split; [|split; [|split; [|split]]].
      * intros e H. discriminate H.
      * cbn. lia.
      * intros _. reflexivity.
      * intros tree H. inversion H. subst status. discriminate E.
      * intros tree H Hn. inversion H. congruence.
  - cbn [fetch_full_tree fst snd]. split; [|split; [|split; [|split]]].
    + intros e H. discriminate H.
    + cbn. lia.
    + intros _. reflexivity.
    + intros tree H. discriminate H.
    + intros tree H Hn. inversion H. congruence.
  - cbn [fetch_full_tree fst snd]. split; [|split; [|split; [|split]]].
    + intros e H. inversion H. split; reflexivity.
    + cbn. lia.
    + intros H. exfalso. apply H. reflexivity.
    + intros tree H. discriminate H.
    + intros tree H. discriminate H.
Qed.

(** [get_parameter_value] never turns a transport failure into an
    exception: it raises only on an interrupt or when the search itself
    raises on a parsed document. *)
Theorem get_parameter_value_raises_only (h : http_result) (path : string)
  (e : exn) (H : get_parameter_value_http h path = Raise e) :
  h = HInterrupt
  \/ exists tree, h = HResponse 200 (Some tree) /\ truthy tree = true
                  /\ search_tree_for_value tree path = Raise e.
Proof.
  unfold get_parameter_value_http in H.
  destruct h as [status body| |]; cbn [fetch_full_tree] in H; [|discriminate|left; reflexivity].
  destruct (Z.eqb status 200) eqn:E; [|discriminate].
  apply Z.eqb_eq in E. subst status.
  destruct body as [tree|]; cbn [fst get_parameter_value] in H; [|discriminate].
  destruct (truthy tree) eqn:Et; [|discriminate].
  right. exists tree. auto.
Qed.

(** ** What a completed cycle writes *)



(** ** Discovery *)

Lemma get_dynamic_output_path_fst env :
  fst (get_dynamic_output_path env) = fst (discovery_loop true env).
Proof. unfold get_dynamic_output_path. destruct (discovery_loop true env); reflexivity. Qed.

Lemma discovery_failed_fst b n :
  fst (discovery_loop b (repeat (DAttempt None) n)) = Ret None.
Proof.
  revert b. induction n as [|n IH]; intros b; [reflexivity|].
  cbn [repeat discovery_loop].
  specialize (IH (negb b)). destruct (discovery_loop (negb b) (repeat (DAttempt None) n)).
  exact IH.
Qed.

Lemma discovery_failed_blink b k pin r :
  In pin LED_PINS ->
  ratio_after pin r (snd (discovery_loop b (repeat (DAttempt None) (S k))))
  = (if (if Nat.even k then b else negb b) then 1 else 0)%Q.
Proof.
  intros Hin. revert b r. induction k as [|k IH]; intros b r.
  - cbn [repeat discovery_loop snd]. rewrite app_nil_r.
    destruct Hin as [<-|[<-|[<-|[]]]]; destruct b; reflexivity.
  - change (repeat (DAttempt None) (S (S k)))
      with (DAttempt None :: repeat (DAttempt None) (S k)).
    cbn [discovery_loop].
    pose proof (IH (negb b)) as IHb.
    destruct (discovery_loop (negb b) (repeat (DAttempt None) (S k))) as [r' tr'].
    cbn [snd] in *. rewrite ratio_after_app, IHb.
    rewrite Nat.even_succ, <- Nat.negb_even.
    destruct (Nat.even k), b; reflexivity.
Qed.

(** While discovery's fetches fail, the LEDs blink: after the first attempt
    they are at full brightness, after the second off, and so on; when the
    deadline passes every LED is turned off and the timeout is logged. *)
Theorem discovery_blinks_until_timeout (k : nat) (pin : nat)
  (Hpin : In pin LED_PINS) :
  ratio pin (snd (discovery_loop true (repeat (DAttempt None) (S k))))
    = (if Nat.even k then 1 else 0)%Q
  /\ get_dynamic_output_path (repeat (DAttempt None) (S k))
     = (Ret None, snd (discovery_loop true (repeat (DAttempt None) (S k)))
                   ++ leds_off ++ [Log Error MTimeout])
  /\ ratio pin (snd (get_dynamic_output_path (repeat (DAttempt None) (S k)))) = 0%Q.
Proof.
  assert (Hg : get_dynamic_output_path (repeat (DAttempt None) (S k))
     = (Ret None, snd (discovery_loop true (repeat (DAttempt None) (S k)))
                   ++ leds_off ++ [Log Error MTimeout])).
  { unfold get_dynamic_output_path.
    pose proof (discovery_failed_fst true (S k)) as Hf.
    destruct (discovery_loop true (repeat (DAttempt None) (S k))) as [r tr].
    cbn [fst snd] in *. subst r. reflexivity. }
  split; [|split; [exact Hg|]].
  - unfold ratio. rewrite (discovery_failed_blink true k pin 0 Hpin).
    destruct (Nat.even k); reflexivity.
  - rewrite Hg. cbn [snd]. unfold ratio. rewrite !ratio_after_app.
    rewrite leds_off_zero by exact Hpin. reflexivity.
Qed.

Lemma discovery_loop_retry b n t rest path :
  find (present t) candidate_paths = Some path ->
  fst (discovery_loop b (repeat (DAttempt None) n ++ DAttempt (Some (to_json t)) :: rest))
  = Ret (Some path).
Proof.
  intros H. revert b. induction n as [|n IH]; intros b.
  - cbn [repeat app discovery_loop].
    rewrite truthy_to_json, probe_to_json, H. reflexivity.
  - cbn [repeat app discovery_loop].
    specialize (IH (negb b)).
    destruct (discovery_loop (negb b)
                (repeat (DAttempt None) n ++ DAttempt (Some (to_json t)) :: rest)).
    exact IH.
Qed.

(** Failed fetches do not end discovery: after any number of attempts
    whose fetch failed, an attempt that fetches a snapshot with a candidate
    present resolves to the first present candidate. *)
Theorem discovery_retries_failed_fetches (n : nat) (t : tnode)
  (rest : list dstep) (path : string)
  (Hfirst : find (present t) candidate_paths = Some path) :
  fst (get_dynamic_output_path
         (repeat (DAttempt None) n ++ DAttempt (Some (to_json t)) :: rest))
  = Ret (Some path).
Proof.
  rewrite get_dynamic_output_path_fst. apply discovery_loop_retry. exact Hfirst.
Qed.

(** ** Concrete instances of the further properties *)

Lemma search_absent_path_none_witness :
  ~ In "/zzz" (map tn_path (preorder sample_tree))
  /\ search_tree_for_value (to_json sample_tree) "/zzz" = Ret JNull.
Proof.
  assert (H : ~ In "/zzz" (map tn_path (preorder sample_tree)))
    by (simpl; intuition discriminate).
  split; [exact H|]. exact (search_absent_path_none sample_tree "/zzz" H).
Defined.
Lemma actuate_ratio_monotone_witness :
  (20 <= 30)%Q /\ (clamp 20 / 100 <= clamp 30 / 100)%Q.
Proof.
  assert (H : (20 <= 30)%Q) by lra.
  split; [exact H|]. exact (actuate_ratio_monotone 20 30 H).
Defined.
Lemma discovery_blinks_until_timeout_witness :
  ratio 26 (snd (discovery_loop true (repeat (DAttempt None) 2))) = 0%Q.
Proof.
  assert (H : In 26 LED_PINS) by (left; reflexivity).
  exact (proj1 (discovery_blinks_until_timeout 1 26 H)).
Defined.
Lemma discovery_retries_failed_fetches_witness :
  fst (get_dynamic_output_path
         (repeat (DAttempt None) 2
            ++ [DAttempt (Some (to_json (inst_tree [] [("value", JNum 5)])))]))
  = Ret (Some (TARGET_PATH 1)).
Proof.
  assert (H : find (present (inst_tree [] [("value", JNum 5)])) candidate_paths
              = Some (TARGET_PATH 1)) by reflexivity.
  exact (discovery_retries_failed_fetches 2 _ [] _ H).
Defined.
Lemma get_parameter_value_raises_only_witness :
  get_parameter_value_http (HResponse 200 (Some contents_list_tree)) (TARGET_PATH 0)
    = Raise AttributeError
  /\ (HResponse 200 (Some contents_list_tree) = HInterrupt
      \/ exists tree, HResponse 200 (Some contents_list_tree) = HResponse 200 (Some tree)
           /\ truthy tree = true
           /\ search_tree_for_value tree (TARGET_PATH 0) = Raise AttributeError).
Proof.
  assert (H : get_parameter_value_http (HResponse 200 (Some contents_list_tree))
                (TARGET_PATH 0) = Raise AttributeError) by (vm_compute; reflexivity).
  split; [exact H|]. exact (get_parameter_value_raises_only _ _ _ H).
Defined.

Lemma interrupt_during_fetch_like_sleep_witness :
  polling_phase (TARGET_PATH 0) ([LCycle (ok good_tree)] ++ [LCycle HInterrupt])
  = polling_phase (TARGET_PATH 0) ([LCycle (ok good_tree)] ++ [LInterrupt]).
Proof.
  assert (H : poll_loop (TARGET_PATH 0) [LCycle (ok good_tree)]
              = (Running, snd (poll_loop (TARGET_PATH 0) [LCycle (ok good_tree)])))
    by (vm_compute; reflexivity).
  exact (proj1 (interrupt_during_fetch_like_sleep _ _ _ [] H)).
Defined.

Lemma poll_cycle_nonfinite_witness :
  poll_cycle (Some (to_json (inst_tree [("value", JStr "nan")] []))) (TARGET_PATH 0)
    = Ret (actuate 100)
  /\ poll_cycle (Some (to_json (inst_tree [("value", JList [JStr " -Infinity"])] [])))
       (TARGET_PATH 0) = Ret (actuate 0).
Proof.
  split.
  - assert (H : get_parameter_value
                  (Some (to_json (inst_tree [("value", JStr "nan")] []))) (TARGET_PATH 0)
                = Ret (JStr "nan")) by (vm_compute; reflexivity).
    apply (proj1 (poll_cycle_nonfinite _ _ _ H)).
    left. vm_compute. reflexivity.
  - assert (H : get_parameter_value
                  (Some (to_json (inst_tree [("value", JList [JStr " -Infinity"])] [])))
                  (TARGET_PATH 0) = Ret (JStr " -Infinity")) by (vm_compute; reflexivity).
    apply (proj2 (poll_cycle_nonfinite _ _ _ H)).
    vm_compute. reflexivity.
Defined.

Lemma failed_fetch_cycle_warns_witness :
  exists m, poll_cycle_http (HResponse 503 None) (TARGET_PATH 0)
            = (Ret tt, [Log Warning m; Log Warning MFailedGet])
            /\ (m = MFetchException \/ exists s, m = MFetchStatus s /\ s <> 200%Z).
Proof.
  assert (H1 : forall t, HResponse 503 None <> HResponse 200 (Some t))
    by (intros t E; discriminate E).
  assert (H2 : HResponse 503 None <> HInterrupt) by discriminate.
  exact (proj1 (failed_fetch_cycle_warns _ (TARGET_PATH 0) H1 H2)).
Defined.



Lemma discovery_malformed_snapshot_fails_witness :
  get_dynamic_output_path [DAttempt (Some contents_list_tree)]
  = (Raise AttributeError, [SetValue 26 1; SetValue 19 1; SetValue 13 1;
                            Off 26; Off 19; Off 13]).
Proof.
  assert (H1 : path_matches [("CONTENTS", JList [JNum 0])] (TARGET_PATH 0) = false)
    by reflexivity.
  assert (H2 : truthy (dict_get [("CONTENTS", JList [JNum 0])] "CONTENTS") = true)
    by reflexivity.
  assert (H3 : forall cs, dict_get [("CONTENTS", JList [JNum 0])] "CONTENTS" <> JObj cs)
    by (intros cs H; discriminate H).
  unfold contents_list_tree.
  rewrite (discovery_malformed_snapshot_fails _ [] H1 H2 H3). reflexivity.
Defined.

Lemma poll_cycle_overflow_witness :
  polling_phase (TARGET_PATH 0)
    ([LCycle (ok good_tree)]
       ++ [LCycle (ok (to_json (inst_tree [("value", JNum (inject_Z (2 ^ 1024)))] [])))])
  = (Raised OverflowError,
     Log Info (MPolling (TARGET_PATH 0)) :: actuate 50 ++ cleanup).
Proof.
  assert (H1 : get_parameter_value
                 (Some (to_json (inst_tree [("value", JNum (inject_Z (2 ^ 1024)))] [])))
                 (TARGET_PATH 0) = Ret (JNum (inject_Z (2 ^ 1024)))) by reflexivity.
  assert (H2 : overflows (inject_Z (2 ^ 1024)) = true) by reflexivity.
  assert (H3 : poll_loop (TARGET_PATH 0) [LCycle (ok good_tree)] = (Running, actuate 50))
    by (vm_compute; reflexivity).
  exact (proj2 (poll_cycle_overflow _ _ _ H1 H2) _ _ [] H3).
Defined.

Lemma fetch_full_tree_contract_witness :
  fetch_full_tree (ok JNull) = (Ret JNull, [])
  /\ fst (fetch_full_tree (HResponse 500 None)) = Ret JNull.
Proof.
  split.
  - exact (proj1 (proj2 (proj2 (proj2 (fetch_full_tree_contract (ok JNull))))) JNull eq_refl).
  - apply (proj1 (proj2 (proj2 (fetch_full_tree_contract (HResponse 500 None))))).
    discriminate.
Defined.

